(** * PoissonPDF: the example Poisson backend for spey

    A shallow embedding of [src/example_poisson.py].  The backend holds three
    one-dimensional numpy arrays and builds, from them, a configuration, a
    log-likelihood closure, a sampler closure and the expected data.

    - numpy's float64 scalars are Rocq's primitive binary64 floats, so the
      element arithmetic ([*], [+], [/], unary [-], [>]) is the IEEE
      arithmetic the interpreter runs;
    - a one-dimensional [np.ndarray] is a [list float];
    - a Python exception is a [Raise] in the [result] monad;
    - [scipy.stats.poisson.logpmf] and [scipy.stats.poisson.rvs] are not part
      of the repository: they are parameters of the development; where the
      values of the log-pmf outside the domain of the rates matter, they are
      those scipy documents, around a parameter for the closed form. *)

From Stdlib Require Import List Bool Arith ZArith Lia Floats.
Import ListNotations.

Local Open Scope float_scope.

(** ** Exceptions and the error monad *)

(** [IndexError] and [ValueError] are the exceptions the numpy operations used
    by the source raise.  [InvalidConstruction] and [DegenerateModel] are the
    names of the error taxonomy the backend is documented against; no path of
    the source raises them. *)
Inductive exn : Type :=
| IndexError
| ValueError
| InvalidConstruction
| DegenerateModel.

Inductive result (A : Type) : Type :=
| Ok (a : A)
| Raise (e : exn).

Arguments Ok {A} a.
Arguments Raise {A} e.

Definition bind {A B : Type} (c : result A) (k : A -> result B) : result B :=
  match c with
  | Ok a => k a
  | Raise e => Raise e
  end.

Notation "x <- c ;; k" := (bind c (fun x => k))
  (at level 61, c at next level, right associativity).

(** ** The fragment of numpy the backend uses, on one-dimensional arrays *)

Module Np.

Definition ndarray : Type := list float.

(** [a[0]] on a sequence: [IndexError] when it is empty. *)
Definition getitem0 (a : list float) : result float :=
  match a with
  | [] => Raise IndexError
  | x :: _ => Ok x
  end.

(** A binary ufunc on two one-dimensional arrays, with numpy's
    broadcasting: equal lengths go elementwise, a length-one operand is
    stretched, anything else is a [ValueError] (operands could not be
    broadcast together). *)
Definition broadcast2 (f : float -> float -> float) (xs ys : ndarray)
  : result ndarray :=
  if Nat.eqb (length xs) (length ys) then
    Ok (map (fun p => f (fst p) (snd p)) (combine xs ys))
  else
    match xs, ys with
    | [x], _ => Ok (map (f x) ys)
    | _, [y] => Ok (map (fun x => f x y) xs)
    | _, _ => Raise ValueError
    end.

(** [c * a] for a scalar [c]. *)
Definition scalar_mul (c : float) (a : ndarray) : ndarray :=
  map (fun x => c * x) a.

Definition add : ndarray -> ndarray -> result ndarray :=
  broadcast2 PrimFloat.add.

Definition divide : ndarray -> ndarray -> result ndarray :=
  broadcast2 PrimFloat.div.

(** [a > c] for a scalar [c]: the boolean mask. *)
Definition greater (a : ndarray) (c : float) : list bool :=
  map (fun x => c <? x) a.

(** [np.any] on a boolean array. *)
Definition any (mask : list bool) : bool :=
  existsb (fun b => b) mask.

Fixpoint compress (a : ndarray) (mask : list bool) : ndarray :=
  match a, mask with
  | x :: a', true :: mask' => x :: compress a' mask'
  | _ :: a', false :: mask' => compress a' mask'
  | _, _ => []
  end.

(** [a[mask]] for a boolean mask: the selected entries in order.  numpy
    compares the mask's length with the array's only for a mask that is not
    empty, and raises [IndexError] when they differ; an empty mask selects
    nothing from any array. *)
Definition getitem_mask (a : ndarray) (mask : list bool) : result ndarray :=
  if Nat.eqb (length mask) 0 then Ok []
  else if Nat.eqb (length a) (length mask) then Ok (compress a mask)
  else Raise IndexError.

(** [np.minimum] inside a reduction: the accumulator [x] is kept when it is
    strictly below the next entry [y] or is a NaN; so a NaN is propagated,
    and of two equal values, [+0.0] and [-0.0] included, the later one
    stays. *)
Definition minimum (x y : float) : float :=
  if (x <? y) || is_nan x then x else y.

(** [np.min]: the reduction of [minimum], which has no identity, so a
    zero-size array is a [ValueError]. *)
Definition min (a : ndarray) : result float :=
  match a with
  | [] => Raise ValueError
  | x :: a' => Ok (fold_left minimum a' x)
  end.

(** The eight accumulators of numpy's unrolled summation loop. *)
Definition acc8 : Type :=
  (float * float * float * float * float * float * float * float)%type.

(** The unrolled loop: each full block of eight entries is added to the
    accumulators, entry [j] of the block to accumulator [j]; the entries
    that do not fill a block are left over. *)
Fixpoint accumulate8 (r : acc8) (a : ndarray) {struct a} : acc8 * ndarray :=
  match a with
  | x0 :: x1 :: x2 :: x3 :: x4 :: x5 :: x6 :: x7 :: rest =>
      let '(r0, r1, r2, r3, r4, r5, r6, r7) := r in
      accumulate8
        (r0 + x0, r1 + x1, r2 + x2, r3 + x3,
         r4 + x4, r5 + x5, r6 + x6, r7 + x7) rest
  | _ => (r, a)
  end.

Definition combine8 (r : acc8) : float :=
  let '(r0, r1, r2, r3, r4, r5, r6, r7) := r in
  ((r0 + r1) + (r2 + r3)) + ((r4 + r5) + (r6 + r7)).

(** One block of numpy's pairwise summation (at most 128 entries).  Fewer
    than eight entries are added one after the other, starting from
    [-0.0]; from eight entries on, the first eight initialise the
    accumulators, the full blocks of eight that follow are accumulated, the
    accumulators are combined pairwise, and the left-over entries are added
    one after the other. *)
Definition block_sum (a : ndarray) : float :=
  match a with
  | x0 :: x1 :: x2 :: x3 :: x4 :: x5 :: x6 :: x7 :: rest =>
      let (r, tail) := accumulate8 (x0, x1, x2, x3, x4, x5, x6, x7) rest in
      fold_left PrimFloat.add tail (combine8 r)
  | _ => fold_left PrimFloat.add a neg_zero
  end.

(** numpy's pairwise summation: an array of more than 128 entries is cut in
    two, the first part holding half of the entries rounded down to a
    multiple of eight, and the sums of the two parts are added.  [fuel]
    bounds the depth of the cuts; the length of the array is enough. *)
Fixpoint pairwise_sum (fuel : nat) (a : ndarray) {struct fuel} : float :=
  if Nat.leb (length a) 128 then block_sum a
  else
    match fuel with
    | O => block_sum a
    | S fuel' =>
        let n2 := (length a / 2 - (length a / 2) mod 8)%nat in
        pairwise_sum fuel' (firstn n2 a) + pairwise_sum fuel' (skipn n2 a)
    end.

(** [np.sum] on a contiguous float64 array: the reduction of [+] starts
    from its identity [0.0], to which the pairwise sum of the array is
    added. *)
Definition sum (a : ndarray) : float :=
  0 + pairwise_sum (length a) a.

End Np.

Import Np.

(** ** The collaborators from spey *)

(** Modelled from the spec: [spey.ExpectationType], an enumeration with the
    three variants [observed], [apriori] and [aposteriori]. *)
Inductive ExpectationType : Type :=
| observed
| apriori
| aposteriori.

Definition ExpectationType_eqb (a b : ExpectationType) : bool :=
  match a, b with
  | observed, observed | apriori, apriori | aposteriori, aposteriori => true
  | _, _ => false
  end.

(** Modelled from the spec: [spey.base.model_config.ModelConfig], the record
    built from the four positional arguments POI index, minimum POI,
    suggested initial parameters and suggested bounds. *)
Record ModelConfig : Type := Build_ModelConfig
  { poi_index : nat;
    minimum_poi : float;
    suggested_init : list float;
    suggested_bounds : list (float * float) }.

(** ** The backend *)

Record PoissonPDF : Type := Build_PoissonPDF
  { signal_yields : ndarray;
    background_yields : ndarray;
    data : ndarray }.

(** [PoissonPDF.__init__]: the three arrays are stored as they come. *)
Definition __init__ (signal_yields background_yields data : ndarray)
  : result PoissonPDF :=
  Ok (Build_PoissonPDF signal_yields background_yields data).

(** [is_alive]: [np.any(self.signal_yields > 0.0)]. *)
Definition is_alive (self : PoissonPDF) : bool :=
  any (greater (signal_yields self) 0).

(** [config]: the two masked arrays are taken first (background, then
    signal), divided, reduced with [np.min] and negated. *)
Definition config (self : PoissonPDF) (allow_negative_signal : bool)
  (poi_upper_bound : float) : result ModelConfig :=
  b <- getitem_mask (background_yields self) (greater (signal_yields self) 0) ;;
  s <- getitem_mask (signal_yields self) (greater (signal_yields self) 0) ;;
  q <- divide b s ;;
  m <- min q ;;
  let min_poi := - m in
  Ok (Build_ModelConfig
        0
        min_poi
        [0]
        [(if allow_negative_signal then min_poi else 0, poi_upper_bound)]).

(** [pars[0] * self.signal_yields + self.background_yields], the expression
    shared by the likelihood, the sampler and [expected_data]. *)
Definition expected_data (self : PoissonPDF) (pars : list float)
  : result ndarray :=
  p0 <- getitem0 pars ;;
  add (scalar_mul p0 (signal_yields self)) (background_yields self).

(** The first two statements of [get_logpdf_func]: which array the
    likelihood is evaluated on. *)
Definition current_data (self : PoissonPDF) (expected : ExpectationType)
  : ndarray :=
  if ExpectationType_eqb expected apriori then background_yields self
  else data self.

Definition selected_data (self : PoissonPDF) (expected : ExpectationType)
  (data : option ndarray) : ndarray :=
  match data with
  | None => current_data self expected
  | Some d => d
  end.

Section Scipy.

(** [scipy.stats.poisson.logpmf] at one point [(k, mu)]; on arrays scipy
    applies it elementwise after broadcasting. *)
Variable poisson_logpmf : float -> float -> float.

(** [scipy.stats.poisson.rvs(mu, size=(n, bins))] as a function of the
    state of the process-wide random generator. *)
Variable rng : Type.
Variable samples : Type.
Variable poisson_rvs : ndarray -> Z * nat -> rng -> result samples * rng.

(** The body of the lambda of [get_logpdf_func], with the [data] it
    captured. *)
Definition logpdf (self : PoissonPDF) (data : ndarray) (pars : list float)
  : result float :=
  mu <- expected_data self pars ;;
  lp <- broadcast2 poisson_logpmf data mu ;;
  Ok (sum lp).

(** [get_logpdf_func]: the returned closure is the function of [pars]. *)
Definition get_logpdf_func (self : PoissonPDF) (expected : ExpectationType)
  (data : option ndarray) : list float -> result float :=
  let data := selected_data self expected data in
  fun pars => logpdf self data pars.

(** [get_sampler]: the returned closure takes the sample size and the
    generator state. *)
Definition get_sampler (self : PoissonPDF) (pars : list float)
  : Z -> rng -> result samples * rng :=
  fun sample_size st =>
    match expected_data self pars with
    | Ok mu => poisson_rvs mu (sample_size, length (signal_yields self)) st
    | Raise e => (Raise e, st)
    end.

End Scipy.

Arguments get_sampler {rng samples} poisson_rvs self pars.

(** ** The special values of scipy's Poisson log-pmf *)

(** [scipy.stats.poisson.logpmf] at one point, as scipy documents its
    discrete distributions: a rate outside the domain [mu >= 0], or a NaN
    count or rate, gives NaN; a count below the support [k >= 0] gives
    [-inf]; at [mu = 0] all the mass is at [k = 0], so the log-pmf is [0.0]
    there and [-inf] at a positive count; at every other point the value is
    that of the closed form [xlogy(k, mu) - gammaln(k + 1) - mu], which is
    the parameter [regular]. *)
Definition scipy_poisson_logpmf (regular : float -> float -> float)
  (k mu : float) : float :=
  if is_nan k || negb (0 <=? mu) then nan
  else if k <? 0 then neg_infinity
  else if is_zero mu then (if is_zero k then 0 else neg_infinity)
  else regular k mu.

(** ** Vocabulary of the statements *)

(** The ratios [background_yields[i] / signal_yields[i]] of the bins whose
    signal yield is strictly positive, in bin order. *)
Definition ratios (self : PoissonPDF) : list float :=
  map (fun p => snd p / fst p)
    (filter (fun p => 0 <? fst p)
       (combine (signal_yields self) (background_yields self))).

(** ** The running examples *)

(** [signal=[10,5], background=[2,3], data=[12,8]]. *)
Definition example_model : PoissonPDF :=
  Build_PoissonPDF [10; 5] [2; 3] [12; 8].

(** [signal=[0,0], background=[1,1], data=[1,1]]. *)
Definition dead_model : PoissonPDF :=
  Build_PoissonPDF [0; 0] [1; 1] [1; 1].

(** An elementwise kernel and a generator to run the closures on: the
    statements below hold for every choice of them. *)
Definition kernel_example (k mu : float) : float := k * mu - mu.

Definition rvs_example (mu : ndarray) (size : Z * nat) (st : nat)
  : result (list ndarray) * nat :=
  (Ok (repeat mu (Z.to_nat (fst size))), S st).

(** [signal=[1,2], background=[nan,4], data=[1,1]]: a yield that is not a
    number. *)
Definition nan_model : PoissonPDF :=
  Build_PoissonPDF [1; 2] [nan; 4] [1; 1].

(** [signal=[10,0,5], background=[2,7,3], data=[12,8,8]]: one bin without
    signal. *)
Definition mixed_model : PoissonPDF :=
  Build_PoissonPDF [10; 0; 5] [2; 7; 3] [12; 8; 8].

(** ** Vocabulary of the further properties *)

(** [x] is the negative zero [-0.0] (which [x == 0.0] does not tell from
    [0.0]). *)
Definition is_neg_zero (x : float) : bool :=
  PrimFloat.Leibniz.eqb x neg_zero.

(** A zero or a finite non-zero value, read on [spec_float]. *)
Definition SFfinite (a : spec_float) : Prop :=
  match a with
  | S754_zero _ | S754_finite _ _ _ => True
  | _ => False
  end.

Definition SFzero (a : spec_float) : Prop :=
  match a with
  | S754_zero _ => True
  | _ => False
  end.

(** The model restricted to its bins of strictly positive signal yield:
    each array keeps its entries at the positions where
    [signal_yields > 0]. *)
Definition signal_bins (self : PoissonPDF) : PoissonPDF :=
  let mask := greater (signal_yields self) 0 in
  Build_PoissonPDF
    (compress (signal_yields self) mask)
    (compress (background_yields self) mask)
    (compress (data self) mask).

(** A property of each, or of one, of the eight accumulators. *)
Definition all8 (P : float -> Prop) (r : acc8) : Prop :=
  let '(r0, r1, r2, r3, r4, r5, r6, r7) := r in
  P r0 /\ P r1 /\ P r2 /\ P r3 /\ P r4 /\ P r5 /\ P r6 /\ P r7.

Definition ex8 (Q : float -> Prop) (r : acc8) : Prop :=
  let '(r0, r1, r2, r3, r4, r5, r6, r7) := r in
  Q r0 \/ Q r1 \/ Q r2 \/ Q r3 \/ Q r4 \/ Q r5 \/ Q r6 \/ Q r7.

(** A zero, a negative number or [-inf], read on [spec_float]. *)
Definition SFnonpos (a : spec_float) : Prop :=
  match a with
  | S754_zero _ | S754_finite true _ _ | S754_infinity true => True
  | _ => False
  end.

(** The shape numpy's broadcasting gives [pars[0] * signal_yields +
    background_yields]: the common length, a length-one array stretched to
    the other. *)
Definition broadcast_length (n m : nat) : nat :=
  if Nat.eqb n 1 then m else n.

(** ** Order facts on binary64 floats

    Comparisons are read through their specification on [spec_float]: a
    comparison with a NaN is false, the other values are totally ordered. *)

Ltac compare_cases :=
  repeat match goal with
  | |- context [Z.compare ?a ?b] => destruct (Z.compare_spec a b)
  | |- context [Pos.compare ?a ?b] => destruct (Pos.compare_spec a b)
  end.

Lemma SFleb_trans (a b c : spec_float) :
  SFleb a b = true -> SFleb b c = true -> SFleb a c = true.
Proof.
  unfold SFleb, SFcompare.
  destruct a as [sa|sa| |sa ma ea], b as [sb|sb| |sb mb eb],
    c as [sc|sc| |sc mc ec];
    try destruct sa; try destruct sb; try destruct sc; simpl;
    try easy;
    change (Pos.compare_cont Eq) with Pos.compare;
    compare_cases; simpl; try easy; subst; try lia.
Qed.

Lemma SFleb_total (a b : spec_float) :
  a <> S754_nan -> b <> S754_nan -> SFleb a b = true \/ SFleb b a = true.
Proof.
  unfold SFleb, SFcompare.
  destruct a as [sa|sa| |sa ma ea], b as [sb|sb| |sb mb eb];
    try destruct sa; try destruct sb; simpl; intros Ha Hb;
    try (now left); try (now right); try easy;
    change (Pos.compare_cont Eq) with Pos.compare;
    compare_cases; simpl; try (now left); try (now right); subst; try lia.
Qed.

Lemma SFltb_zero_SFleb (a : spec_float) :
  a <> S754_nan ->
  SFltb (S754_zero false) a = false <-> SFleb a (S754_zero false) = true.
Proof.
  unfold SFltb, SFleb, SFcompare.
  destruct a as [sa|sa| |sa ma ea]; try destruct sa; simpl; intros Ha;
    try easy.
Qed.

Lemma SFltb_SFleb (a b : spec_float) :
  SFltb a b = true -> SFleb a b = true.
Proof. unfold SFltb, SFleb. now destruct (SFcompare a b) as [[]|]. Qed.

Lemma SFltb_false_SFleb (a b : spec_float) :
  a <> S754_nan -> b <> S754_nan ->
  SFltb a b = false -> SFleb b a = true.
Proof.
  unfold SFltb, SFleb, SFcompare.
  destruct a as [sa|sa| |sa ma ea], b as [sb|sb| |sb mb eb];
    try destruct sa; try destruct sb; simpl; intros Ha Hb; try easy;
    change (Pos.compare_cont Eq) with Pos.compare;
    compare_cases; simpl; try easy; subst; try lia.
Qed.

Lemma is_nan_Prim2SF (x : float) : is_nan x = false -> Prim2SF x <> S754_nan.
Proof.
  unfold is_nan. rewrite eqb_spec. intros H E. rewrite E in H. discriminate.
Qed.

Lemma leb_trans (x y z : float) :
  (x <=? y) = true -> (y <=? z) = true -> (x <=? z) = true.
Proof. rewrite !leb_spec. apply SFleb_trans. Qed.

Lemma leb_total (x y : float) :
  is_nan x = false -> is_nan y = false ->
  (x <=? y) = true \/ (y <=? x) = true.
Proof.
  intros Hx Hy. rewrite !leb_spec.
  apply SFleb_total; now apply is_nan_Prim2SF.
Qed.

Lemma ltb_leb (x y : float) : (x <? y) = true -> (x <=? y) = true.
Proof. rewrite ltb_spec, leb_spec. apply SFltb_SFleb. Qed.

Lemma ltb_false_leb (x y : float) :
  is_nan x = false -> is_nan y = false ->
  (x <? y) = false -> (y <=? x) = true.
Proof.
  intros Hx Hy. rewrite ltb_spec, leb_spec.
  apply SFltb_false_SFleb; now apply is_nan_Prim2SF.
Qed.

Lemma leb_refl (x : float) : is_nan x = false -> (x <=? x) = true.
Proof. intros Hx. now destruct (leb_total x x Hx Hx). Qed.

Lemma not_positive_leb_zero (x : float) :
  is_nan x = false -> (0 <? x) = false <-> (x <=? 0) = true.
Proof.
  intros Hx. rewrite ltb_spec, leb_spec.
  change (Prim2SF 0) with (S754_zero false).
  apply SFltb_zero_SFleb. now apply is_nan_Prim2SF.
Qed.

(** ** Further facts on binary64 floats

    Signs of quotients and of opposites, products with a zero, and the
    comparisons with a NaN, again through [spec_float]. *)

Lemma is_finite_Prim2SF (x : float) :
  is_finite x = true -> SFfinite (Prim2SF x).
Proof.
  unfold is_finite, is_nan, is_infinity.
  rewrite !eqb_spec, abs_spec.
  change (Prim2SF infinity) with (S754_infinity false).
  destruct (Prim2SF x) as [s|s| |s m e]; simpl; try easy.
  now destruct s.
Qed.

Lemma is_zero_Prim2SF (x : float) :
  is_zero x = true -> SFzero (Prim2SF x).
Proof.
  unfold is_zero. rewrite eqb_spec.
  change (Prim2SF zero) with (S754_zero false).
  destruct (Prim2SF x) as [s|s| |s m e]; simpl; try easy.
  - now destruct s.
  - now destruct s.
Qed.

Lemma is_neg_zero_Prim2SF (x : float) :
  is_neg_zero x = false -> Prim2SF x <> S754_zero true.
Proof.
  unfold is_neg_zero. intros H E.
  assert (Hx : x = neg_zero) by (apply Prim2SF_inj; rewrite E; reflexivity).
  apply FloatAxioms.Leibniz.eqb_spec in Hx. congruence.
Qed.

Lemma SF_zero_product_add (x y b : spec_float) :
  SFfinite x -> SFfinite y -> SFzero x \/ SFzero y ->
  b <> S754_zero true ->
  SF64add (SF64mul x y) b = b.
Proof.
  unfold SF64add, SF64mul, SFadd, SFmul.
  destruct x as [sx|sx| |sx mx ex], y as [sy|sy| |sy my ey]; simpl;
    try easy; intros _ _ Hz Hb; try (destruct Hz; easy);
    destruct b as [sb|sb| |sb mb eb]; try easy;
    destruct (xorb _ _), sb; try easy.
Qed.

Lemma zero_product_add (x y b : float) :
  is_finite x = true -> is_finite y = true ->
  is_zero x = true \/ is_zero y = true ->
  is_neg_zero b = false ->
  x * y + b = b.
Proof.
  intros Hx Hy Hz Hb. apply Prim2SF_inj. rewrite add_spec, mul_spec.
  apply SF_zero_product_add.
  - now apply is_finite_Prim2SF.
  - now apply is_finite_Prim2SF.
  - destruct Hz; [left | right]; now apply is_zero_Prim2SF.
  - now apply is_neg_zero_Prim2SF.
Qed.

Lemma SFleb_opp (a : spec_float) :
  SFleb (S754_zero false) a = true -> SFleb (SFopp a) (S754_zero false) = true.
Proof.
  unfold SFleb, SFcompare, SFopp.
  destruct a as [s|s| |s m e]; try destruct s; simpl; easy.
Qed.

Lemma opp_nonneg (x : float) : (0 <=? x) = true -> (- x <=? 0) = true.
Proof.
  rewrite !leb_spec, opp_spec. change (Prim2SF 0) with (S754_zero false).
  apply SFleb_opp.
Qed.

(* rounding keeps non-negative mantissas *)
Lemma shr_1_nonneg mrs : (0 <= shr_m mrs)%Z -> (0 <= shr_m (shr_1 mrs))%Z.
Proof.
  destruct mrs as [m r s]. simpl. destruct m as [|[p|p|]|p]; simpl; lia.
Qed.

Lemma iter_pos_inv {A} (P : A -> Prop) (f : A -> A) :
  (forall x, P x -> P (f x)) -> forall n x, P x -> P (iter_pos f n x).
Proof.
  intros Hf. induction n as [n IH|n IH|]; intros x Hx; simpl; auto.
Qed.

Lemma shr_fexp_nonneg m e l :
  (0 <= m)%Z -> (0 <= shr_m (fst (shr_fexp prec emax m e l)))%Z.
Proof.
  intros Hm. unfold shr_fexp, shr.
  assert (H0 : (0 <= shr_m (shr_record_of_loc m l))%Z)
    by (destruct l as [|[]]; simpl; exact Hm).
  destruct (_ - e)%Z; simpl; auto.
  apply (iter_pos_inv (fun r => 0 <= shr_m r)%Z); auto using shr_1_nonneg.
Qed.

Lemma round_nearest_even_nonneg m l :
  (0 <= m)%Z -> (0 <= round_nearest_even m l)%Z.
Proof.
  intros Hm. unfold round_nearest_even.
  destruct l as [|[]]; try lia. destruct (Z.even m); lia.
Qed.

Lemma binary_round_aux_nonneg m e l :
  (0 <= m)%Z ->
  SFleb (S754_zero false) (binary_round_aux prec emax false m e l) = true.
Proof.
  intros Hm. unfold binary_round_aux.
  pose proof (shr_fexp_nonneg m e l Hm) as H1.
  destruct (shr_fexp prec emax m e l) as [mrs' e'] eqn:E1. simpl in H1.
  pose proof (shr_fexp_nonneg
                (round_nearest_even (shr_m mrs') (loc_of_shr_record mrs'))
                e' loc_Exact (round_nearest_even_nonneg _ _ H1)) as H2.
  destruct (shr_fexp prec emax _ e' loc_Exact) as [mrs'' e''] eqn:E2.
  simpl in H2.
  destruct (shr_m mrs'') as [|p|p]; try lia; try reflexivity.
  now destruct (Z.leb e'' _).
Qed.

Lemma SFdiv_core_nonneg m1 e1 m2 e2 :
  (0 <= fst (fst (SFdiv_core_binary prec emax (Zpos m1) e1 (Zpos m2) e2)))%Z.
Proof.
  unfold SFdiv_core_binary.
  set (s := (_ - _ - _)%Z).
  set (m' := match s with Zpos _ => Z.shiftl (Zpos m1) s | Z0 => Zpos m1 | Zneg _ => Z0 end).
  assert (Hm' : (0 <= m')%Z).
  { unfold m'. destruct s; try lia. apply Z.shiftl_nonneg. lia. }
  pose proof (Z_div_mod m' (Zpos m2) ltac:(lia)) as H.
  destruct (Z.div_eucl m' (Zpos m2)) as [q r]. simpl.
  destruct H as [H1 H2]. nia.
Qed.

Lemma SFdiv_nonneg (x y : spec_float) :
  SFleb (S754_zero false) x = true ->
  SFltb x (S754_infinity false) = true ->
  SFltb (S754_zero false) y = true ->
  SFleb (S754_zero false) (SF64div x y) = true.
Proof.
  unfold SF64div, SFdiv.
  destruct x as [sx|sx| |sx mx ex], y as [sy|sy| |sy my ey];
    try destruct sx; try destruct sy; simpl; try easy.
  intros _ _ _.
  pose proof (SFdiv_core_nonneg mx ex my ey) as H.
  destruct (SFdiv_core_binary prec emax (Zpos mx) ex (Zpos my) ey) as [[mz ez] lz].
  simpl in H. now apply binary_round_aux_nonneg.
Qed.

Lemma div_nonneg (b s : float) :
  (0 <=? b) = true -> (b <? infinity) = true -> (0 <? s) = true ->
  (0 <=? b / s) = true.
Proof.
  rewrite !leb_spec, !ltb_spec, div_spec.
  change (Prim2SF 0) with (S754_zero false).
  change (Prim2SF infinity) with (S754_infinity false).
  apply SFdiv_nonneg.
Qed.

Lemma SFeqb_refl_false (a : spec_float) : SFeqb a a = false -> a = S754_nan.
Proof.
  unfold SFeqb, SFcompare.
  destruct a as [s|s| |s m e]; try destruct s; simpl; try easy;
    rewrite Z.compare_refl, Pos.compare_cont_refl; easy.
Qed.

Lemma is_nan_true_Prim2SF (x : float) :
  is_nan x = true -> Prim2SF x = S754_nan.
Proof.
  unfold is_nan. rewrite eqb_spec. intros H.
  apply SFeqb_refl_false. now destruct (SFeqb _ _).
Qed.

Lemma leb_nan_r (x y : float) : is_nan y = true -> (x <=? y) = false.
Proof.
  intros Hy. rewrite leb_spec, (is_nan_true_Prim2SF y Hy).
  unfold SFleb, SFcompare. now destruct (Prim2SF x).
Qed.

Lemma ltb_nan_r (x y : float) : is_nan y = true -> (x <? y) = false.
Proof.
  intros Hy. rewrite ltb_spec, (is_nan_true_Prim2SF y Hy).
  unfold SFltb, SFcompare. now destruct (Prim2SF x).
Qed.

Lemma is_nan_opp (x : float) : is_nan x = true -> is_nan (- x) = true.
Proof.
  intros Hx. unfold is_nan. rewrite eqb_spec, opp_spec.
  now rewrite (is_nan_true_Prim2SF x Hx).
Qed.

(** [np.min] propagates a NaN, wherever it stands in the array. *)
Lemma fold_minimum_nan (l : ndarray) : forall x,
  is_nan x = true \/ Exists (fun y => is_nan y = true) l ->
  is_nan (fold_left minimum l x) = true.
Proof.
  induction l as [|z l IH]; intros x H; simpl.
  - destruct H as [H|H]; [exact H | inversion H].
  - apply IH. unfold minimum.
    destruct H as [H|H].
    + left. now rewrite H, orb_true_r.
    + inversion H as [? ? Hz|? ? Hl]; subst; [|now right].
      left. rewrite (ltb_nan_r x z Hz). simpl.
      now destruct (is_nan x) eqn:E.
Qed.

Lemma is_nan_div_l (b s : float) : is_nan b = true -> is_nan (b / s) = true.
Proof.
  intros Hb. unfold is_nan.
  rewrite eqb_spec, div_spec, (is_nan_true_Prim2SF b Hb). reflexivity.
Qed.

Lemma is_nan_false (x : float) : Prim2SF x <> S754_nan -> is_nan x = false.
Proof.
  intros H. destruct (is_nan x) eqn:E; auto.
  now apply is_nan_true_Prim2SF in E.
Qed.

(** What the comparisons with [0.0] say of a negative, a zero and a
    positive value. *)
Lemma negative_flags (x : float) :
  (x <? 0) = true -> (0 <=? x) = false.
Proof.
  rewrite ltb_spec, leb_spec. change (Prim2SF 0) with (S754_zero false).
  unfold SFltb, SFleb, SFcompare.
  destruct (Prim2SF x) as [s|s| |s m e]; try destruct s; simpl; easy.
Qed.

Lemma zero_flags (x : float) :
  is_zero x = true ->
  (0 <=? x) = true /\ is_nan x = false /\ (x <? 0) = false.
Proof.
  intros Hx. pose proof (is_zero_Prim2SF x Hx) as Hz.
  rewrite ltb_spec, leb_spec. change (Prim2SF 0) with (S754_zero false).
  assert (Hn : is_nan x = false)
    by (apply is_nan_false; intros E; rewrite E in Hz; exact Hz).
  unfold SFltb, SFleb, SFcompare.
  destruct (Prim2SF x) as [s|s| |s m e]; try destruct s; simpl; easy.
Qed.

Lemma positive_flags (x : float) :
  (0 <? x) = true ->
  is_nan x = false /\ (x <? 0) = false /\ is_zero x = false.
Proof.
  unfold is_zero. rewrite !ltb_spec, eqb_spec.
  change (Prim2SF 0) with (S754_zero false).
  change (Prim2SF zero) with (S754_zero false).
  intros Hx.
  assert (Hn : is_nan x = false).
  { apply is_nan_false. intros E. rewrite E in Hx. discriminate. }
  revert Hx. unfold SFltb, SFeqb, SFcompare.
  destruct (Prim2SF x) as [s|s| |s m e]; try destruct s; simpl; easy.
Qed.

Lemma binary_round_aux_sign (sx : bool) (m e : Z) (l : location) :
  (0 <= m)%Z ->
  match binary_round_aux prec emax sx m e l with
  | S754_zero s | S754_infinity s | S754_finite s _ _ => s = sx
  | S754_nan => False
  end.
Proof.
  intros Hm. unfold binary_round_aux.
  pose proof (shr_fexp_nonneg m e l Hm) as H1.
  destruct (shr_fexp prec emax m e l) as [mrs' e'] eqn:E1. simpl in H1.
  pose proof (shr_fexp_nonneg
                (round_nearest_even (shr_m mrs') (loc_of_shr_record mrs'))
                e' loc_Exact (round_nearest_even_nonneg _ _ H1)) as H2.
  destruct (shr_fexp prec emax _ e' loc_Exact) as [mrs'' e''] eqn:E2.
  simpl in H2.
  destruct (shr_m mrs'') as [|p|p]; try lia; try reflexivity.
  now destruct (Z.leb e'' _).
Qed.

Lemma binary_round_sign (sx : bool) (m : positive) (e : Z) :
  match binary_round prec emax sx m e with
  | S754_zero s | S754_infinity s | S754_finite s _ _ => s = sx
  | S754_nan => False
  end.
Proof.
  unfold binary_round. destruct (shl_align _ _ _) as [mz ez].
  apply binary_round_aux_sign. lia.
Qed.

Lemma SFadd_nonpos (x y : spec_float) :
  SFnonpos x -> SFnonpos y -> SFnonpos (SF64add x y).
Proof.
  unfold SF64add, SFadd.
  destruct x as [sx|sx| |sx mx ex], y as [sy|sy| |sy my ey];
    try destruct sx; try destruct sy; simpl; try easy.
  intros _ _.
  match goal with
  | |- SFnonpos (binary_round _ _ true ?q ?e) =>
      pose proof (binary_round_sign true q e) as H;
      destruct (binary_round prec emax true q e) as [s|s| |s ? ?]
  end; subst; easy.
Qed.

Lemma leb_zero_Prim2SF (x : float) :
  (x <=? 0) = true <-> SFnonpos (Prim2SF x).
Proof.
  rewrite leb_spec. change (Prim2SF 0) with (S754_zero false).
  unfold SFleb, SFcompare.
  destruct (Prim2SF x) as [s|s| |s m e]; try destruct s; simpl; easy.
Qed.

(** Values that are at most [0.0] add up to a value that is at most
    [0.0]. *)
Lemma add_nonpos (x y : float) :
  (x <=? 0) = true -> (y <=? 0) = true -> (x + y <=? 0) = true.
Proof.
  rewrite !leb_zero_Prim2SF, add_spec. apply SFadd_nonpos.
Qed.

(** [-inf] absorbs every value that is at most [0.0]. *)
Lemma neg_infinity_add_l (y : float) :
  (y <=? 0) = true -> neg_infinity + y = neg_infinity.
Proof.
  rewrite leb_zero_Prim2SF. intros Hy. apply Prim2SF_inj. rewrite add_spec.
  change (Prim2SF neg_infinity) with (S754_infinity true).
  unfold SF64add, SFadd.
  destruct (Prim2SF y) as [s|s| |s m e]; try destruct s; easy.
Qed.

Lemma neg_infinity_add_r (x : float) :
  (x <=? 0) = true -> x + neg_infinity = neg_infinity.
Proof.
  rewrite leb_zero_Prim2SF. intros Hx. apply Prim2SF_inj. rewrite add_spec.
  change (Prim2SF neg_infinity) with (S754_infinity true).
  unfold SF64add, SFadd.
  destruct (Prim2SF x) as [s|s| |s m e]; try destruct s; easy.
Qed.

(** ** Facts on [np.sum] *)





Lemma is_nan_add_l (x y : float) : is_nan x = true -> is_nan (x + y) = true.
Proof.
  intros Hx. unfold is_nan.
  rewrite eqb_spec, add_spec, (is_nan_true_Prim2SF x Hx). reflexivity.
Qed.

Lemma is_nan_add_r (x y : float) : is_nan y = true -> is_nan (x + y) = true.
Proof.
  intros Hy. unfold is_nan.
  rewrite eqb_spec, add_spec, (is_nan_true_Prim2SF y Hy).
  unfold SF64add, SFadd. now destruct (Prim2SF x).
Qed.

Lemma block_sum_small (a : ndarray) :
  (length a < 8)%nat -> block_sum a = fold_left PrimFloat.add a neg_zero.
Proof.
  intros H. unfold block_sum.
  do 8 (destruct a as [|? a]; [reflexivity|]). simpl in H. lia.
Qed.

(** Fewer than eight entries are added from left to right. *)
Lemma sum_small (a : ndarray) :
  (length a < 8)%nat -> sum a = 0 + fold_left PrimFloat.add a neg_zero.
Proof.
  intros H. unfold sum. f_equal.
  destruct (length a) as [|n] eqn:E.
  - simpl. rewrite E. simpl. now apply block_sum_small; rewrite E.
  - simpl. rewrite E.
    destruct (Nat.leb_spec (S n) 128); [|lia].
    apply block_sum_small. now rewrite E.
Qed.

Lemma pairwise_sum_S (fuel : nat) (a : ndarray) :
  pairwise_sum (S fuel) a
  = if Nat.leb (length a) 128 then block_sum a
    else pairwise_sum fuel
           (firstn (length a / 2 - (length a / 2) mod 8) a)
         + pairwise_sum fuel
             (skipn (length a / 2 - (length a / 2) mod 8) a).
Proof. reflexivity. Qed.

Lemma pairwise_cut (n : nat) :
  (128 < n)%nat -> (0 < n / 2 - (n / 2) mod 8 < n)%nat.
Proof.
  intros Hn.
  pose proof (Nat.mod_upper_bound (n / 2) 8 ltac:(lia)).
  pose proof (Nat.Div0.div_lt_upper_bound n 2 n ltac:(lia)).
  assert (64 <= n / 2)%nat by (apply Nat.div_le_lower_bound; lia).
  lia.
Qed.

(** The depth of the cuts never exceeds the fuel [sum] gives. *)
Lemma pairwise_sum_fuel (f1 : nat) : forall (f2 : nat) (a : ndarray),
  (length a <= f1)%nat -> (length a <= f2)%nat ->
  pairwise_sum f1 a = pairwise_sum f2 a.
Proof.
  induction f1 as [|f1 IH]; intros f2 a H1 H2.
  - destruct a; [|simpl in H1; lia]. now destruct f2.
  - destruct f2 as [|f2].
    + destruct a; [reflexivity | simpl in H2; lia].
    + rewrite !pairwise_sum_S.
      destruct (Nat.leb_spec (length a) 128) as [Hn|Hn]; [reflexivity|].
      pose proof (pairwise_cut (length a) Hn) as Hn2.
      f_equal; apply IH; rewrite ?length_firstn, ?length_skipn; lia.
Qed.


(** A value that absorbs [+] survives the summation.  [P] holds of the
    entries and is kept by [+]; [Q] is absorbing among the values that
    satisfy [P]: then the sum of an array with a [Q] entry is a [Q]
    value. *)
Section Absorbing.

Variables P Q : float -> Prop.
Hypothesis P_add : forall x y, P x -> P y -> P (x + y).
Hypothesis Q_add_l : forall x y, Q x -> P y -> Q (x + y).
Hypothesis Q_add_r : forall x y, P x -> Q y -> Q (x + y).
Hypothesis P_neg_zero : P neg_zero.
Hypothesis P_zero : P 0.

Lemma fold_add_P (a : ndarray) : forall acc,
  P acc -> Forall P a -> P (fold_left PrimFloat.add a acc).
Proof.
  induction a as [|x a IH]; intros acc Hacc Ha; simpl; auto.
  inversion Ha; subst. apply IH; auto.
Qed.

Lemma fold_add_Q (a : ndarray) : forall acc,
  P acc -> Forall P a -> Q acc \/ Exists Q a ->
  Q (fold_left PrimFloat.add a acc).
Proof.
  induction a as [|x a IH]; intros acc Hacc Ha H; simpl.
  - destruct H as [H|H]; [exact H | inversion H].
  - inversion Ha; subst. apply IH; auto.
    destruct H as [H|H]; [left; auto|].
    inversion H; subst; [left; auto | right; auto].
Qed.

Lemma combine8_P (r : acc8) : all8 P r -> P (combine8 r).
Proof.
  destruct r as [[[[[[[r0 r1] r2] r3] r4] r5] r6] r7]. simpl.
  intros (H0 & H1 & H2 & H3 & H4 & H5 & H6 & H7). auto 10.
Qed.

Lemma combine8_Q (r : acc8) : all8 P r -> ex8 Q r -> Q (combine8 r).
Proof.
  destruct r as [[[[[[[r0 r1] r2] r3] r4] r5] r6] r7]. simpl.
  intros (H0 & H1 & H2 & H3 & H4 & H5 & H6 & H7) H.
  decompose [or] H; auto 10.
Qed.

Lemma accumulate8_PQ (n : nat) : forall (a : ndarray) (r : acc8),
  (length a <= n)%nat ->
  all8 P r -> Forall P a ->
  all8 P (fst (accumulate8 r a)) /\
  Forall P (snd (accumulate8 r a)) /\
  (ex8 Q r \/ Exists Q a ->
   ex8 Q (fst (accumulate8 r a)) \/ Exists Q (snd (accumulate8 r a))).
Proof.
  induction n as [|n IH]; intros a r Hn Hr Ha.
  - destruct a; [simpl; auto | simpl in Hn; lia].
  - do 8 (destruct a as [|? a]; [simpl; auto|]).
    destruct r as [[[[[[[r0 r1] r2] r3] r4] r5] r6] r7].
    simpl accumulate8.
    repeat match goal with
           | H : Forall P (_ :: _) |- _ => inversion H; clear H; subst
           end.
    simpl in Hr. destruct Hr as (R0 & R1 & R2 & R3 & R4 & R5 & R6 & R7).
    match goal with
    | |- context [accumulate8 ?r' a] =>
        destruct (IH a r') as (IH1 & IH2 & IH3);
        [simpl in Hn; lia | simpl; auto 10 | assumption |]
    end.
    split; [exact IH1|]. split; [exact IH2|].
    intros H. apply IH3. rewrite !Exists_cons in H.
    unfold ex8 in *. decompose [or] H; auto 14.
Qed.

Lemma block_sum_PQ (a : ndarray) :
  Forall P a ->
  P (block_sum a) /\ (Exists Q a -> Q (block_sum a)).
Proof.
  intros Ha. unfold block_sum.
  do 8 (destruct a as [|? a];
        [split; [apply fold_add_P | intros H; apply fold_add_Q]; auto|]).
  repeat match goal with
         | H : Forall P (_ :: _) |- _ => inversion H; clear H; subst
         end.
  match goal with
  | |- context [accumulate8 ?r a] =>
      destruct (accumulate8_PQ (length a) a r) as (A1 & A2 & A3);
      [lia | simpl; auto 10 | assumption |];
      destruct (accumulate8 r a) as [r' tail]
  end.
  simpl in *. split.
  - apply fold_add_P; auto using combine8_P.
  - intros HQ. rewrite !Exists_cons in HQ.
    apply fold_add_Q; auto using combine8_P.
    destruct A3 as [A3|A3]; [unfold ex8; decompose [or] HQ; auto 14 | |];
      auto using combine8_Q.
Qed.

Lemma pairwise_sum_PQ (fuel : nat) : forall a : ndarray,
  Forall P a ->
  P (pairwise_sum fuel a) /\ (Exists Q a -> Q (pairwise_sum fuel a)).
Proof.
  induction fuel as [|fuel IH]; intros a Ha.
  - simpl. destruct (Nat.leb _ _); now apply block_sum_PQ.
  - rewrite pairwise_sum_S.
    destruct (Nat.leb _ _); [now apply block_sum_PQ|].
    set (n2 := (length a / 2 - (length a / 2) mod 8)%nat).
    pose proof Ha as Hcut. rewrite <- (firstn_skipn n2 a) in Hcut.
    apply Forall_app in Hcut as [H1 H2].
    destruct (IH _ H1) as [P1 Q1], (IH _ H2) as [P2 Q2].
    split; [auto|].
    intros H. rewrite <- (firstn_skipn n2 a) in H.
    apply Exists_app in H as [H|H]; auto.
Qed.

Lemma sum_absorbs (a : ndarray) :
  Forall P a -> Exists Q a -> Q (sum a).
Proof.
  intros Ha H. unfold sum. apply Q_add_r; [exact P_zero|].
  now apply pairwise_sum_PQ.
Qed.

End Absorbing.

(** A NaN entry makes the sum a NaN. *)
Lemma sum_nan (a : ndarray) :
  Exists (fun x => is_nan x = true) a -> is_nan (sum a) = true.
Proof.
  intros H.
  apply (sum_absorbs (fun _ => True) (fun x => is_nan x = true));
    [ easy
    | intros x y Hx _; now apply is_nan_add_l
    | intros x y _ Hy; now apply is_nan_add_r
    | easy
    | easy
    | now apply Forall_forall
    | exact H ].
Qed.

(** Among entries that are at most [0.0], an entry [-inf] makes the sum
    [-inf]. *)
Lemma sum_neg_infinity (a : ndarray) :
  Forall (fun x => (x <=? 0) = true) a ->
  Exists (fun x => x = neg_infinity) a ->
  sum a = neg_infinity.
Proof.
  intros Ha H.
  apply (sum_absorbs (fun x => (x <=? 0) = true)
           (fun x => x = neg_infinity));
    [ exact add_nonpos
    | intros x y -> Hy; now apply neg_infinity_add_l
    | intros x y Hx ->; now apply neg_infinity_add_r
    | reflexivity
    | reflexivity
    | exact Ha
    | exact H ].
Qed.

(** ** Facts on the numpy fragment *)

Lemma broadcast2_same_length f (xs ys : ndarray) :
  length xs = length ys ->
  broadcast2 f xs ys = Ok (map (fun p => f (fst p) (snd p)) (combine xs ys)).
Proof.
  intros H. unfold broadcast2. now rewrite H, Nat.eqb_refl.
Qed.

Lemma combine_map_l {A B C} (g : A -> C) (xs : list A) (ys : list B) :
  combine (map g xs) ys = map (fun p => (g (fst p), snd p)) (combine xs ys).
Proof.
  revert ys. induction xs as [|x xs IH]; intros [|y ys]; simpl; auto.
  now rewrite IH.
Qed.

(** The reduction of [minimum] returns one of the values it ran over. *)
Lemma fold_minimum_In (l : ndarray) : forall x,
  In (fold_left minimum l x) (x :: l).
Proof.
  induction l as [|z l IH]; intros x; simpl; [now left|].
  destruct (IH (minimum x z)) as [H|H]; [|now right; right].
  rewrite <- H. unfold minimum.
  destruct ((x <? z) || is_nan x); [now left | now right; left].
Qed.

(** The reduction of [minimum] over values none of which is a NaN returns
    one of them, below all the others. *)
Lemma fold_minimum_least (l : ndarray) : forall x,
  is_nan x = false ->
  Forall (fun y => is_nan y = false) l ->
  In (fold_left minimum l x) (x :: l) /\
  forall y, In y (x :: l) -> (fold_left minimum l x <=? y) = true.
Proof.
  induction l as [|z l IH]; intros x Hx Hl; simpl.
  - split; [now left|]. intros y [<-|[]]. now apply leb_refl.
  - inversion Hl as [|? ? Hz Hl']; subst.
    assert (Hm : is_nan (minimum x z) = false)
      by (unfold minimum; now destruct ((x <? z) || is_nan x)).
    destruct (IH (minimum x z) Hm Hl') as [Hin Hle].
    assert (Hmx : (minimum x z <=? x) = true /\ (minimum x z <=? z) = true).
    { unfold minimum. rewrite Hx, orb_false_r.
      destruct (x <? z) eqn:E.
      - split; [now apply leb_refl | now apply ltb_leb].
      - split; [now apply ltb_false_leb | now apply leb_refl]. }
    split.
    + exact (fold_minimum_In (z :: l) x).
    + intros y [<-|[<-|Hy]].
      * eapply leb_trans; [apply Hle; now left | apply Hmx].
      * eapply leb_trans; [apply Hle; now left | apply Hmx].
      * apply Hle. now right.
Qed.

Lemma compress_length_eq (s b : ndarray) (mask : list bool) :
  length s = length b ->
  length (compress b mask) = length (compress s mask).
Proof.
  revert b mask. induction s as [|x s IH]; intros [|y b] mask H;
    simpl in *; try discriminate; auto.
  destruct mask as [|[] mask]; simpl; auto.
Qed.

Lemma compress_divide (s b : ndarray) :
  length s = length b ->
  map (fun p => fst p / snd p)
    (combine (compress b (greater s 0)) (compress s (greater s 0)))
  = map (fun p => snd p / fst p)
      (filter (fun p => 0 <? fst p) (combine s b)).
Proof.
  revert b. induction s as [|x s IH]; intros [|y b] H; simpl in *;
    try discriminate; auto.
  injection H as H. destruct (0 <? x); simpl; now rewrite IH.
Qed.

Lemma greater_length (a : ndarray) (c : float) :
  length (greater a c) = length a.
Proof. unfold greater. apply length_map. Qed.

Lemma getitem_mask_same_length (a : ndarray) (mask : list bool) :
  length a = length mask -> getitem_mask a mask = Ok (compress a mask).
Proof.
  intros H. unfold getitem_mask. rewrite H, Nat.eqb_refl.
  destruct mask; [now destruct a | reflexivity].
Qed.

Lemma getitem_mask_mismatch (a : ndarray) (mask : list bool) :
  mask <> [] -> length a <> length mask ->
  getitem_mask a mask = Raise IndexError.
Proof.
  intros Hm H. unfold getitem_mask.
  destruct mask as [|m mask]; [contradiction|]. simpl.
  destruct (Nat.eqb_spec (length a) (S (length mask))); [contradiction|].
  reflexivity.
Qed.

Lemma compress_dead (s a : ndarray) :
  any (greater s 0) = false -> compress a (greater s 0) = [].
Proof.
  revert a. induction s as [|x s IH]; intros a H.
  - now destruct a.
  - simpl in *. destruct (0 <? x); [discriminate|].
    destruct a; simpl; auto.
Qed.

Lemma alive_ratios (s b : ndarray) :
  length s = length b ->
  any (greater s 0) = true ->
  filter (fun p => 0 <? fst p) (combine s b) <> [].
Proof.
  revert b. induction s as [|x s IH]; intros [|y b] H; simpl in *;
    try discriminate.
  injection H as H. destruct (0 <? x); simpl; [discriminate|].
  now apply IH.
Qed.

Lemma expected_data_cons (self : PoissonPDF) (p0 : float) (rest : list float) :
  length (signal_yields self) = length (background_yields self) ->
  expected_data self (p0 :: rest)
  = Ok (map (fun p => p0 * fst p + snd p)
          (combine (signal_yields self) (background_yields self))).
Proof.
  intros H. unfold expected_data, add, scalar_mul. simpl.
  rewrite broadcast2_same_length by now rewrite length_map.
  now rewrite combine_map_l, map_map.
Qed.

Lemma expected_data_head (self : PoissonPDF) (p q : list float) :
  nth_error p 0 = nth_error q 0 ->
  expected_data self p = expected_data self q.
Proof.
  unfold expected_data. destruct p, q; simpl; intros H;
    try discriminate; auto.
  now injection H as ->.
Qed.

Lemma bins_by_index (g h : float -> float -> float) (s : ndarray) :
  forall dat b : ndarray,
  length dat = length s -> length s = length b ->
  map (fun p => g (fst p) (snd p))
    (combine dat (map (fun p => h (fst p) (snd p)) (combine s b)))
  = map (fun i => g (nth i dat 0) (h (nth i s 0) (nth i b 0)))
      (seq 0 (length s)).
Proof.
  induction s as [|x s IH]; intros [|d dat] [|y b] Hd Hb; simpl in *;
    try discriminate; auto.
  f_equal. rewrite <- seq_shift, map_map. apply IH; lia.
Qed.

Lemma nth_error_rates (p0 : float) (s b : ndarray) :
  forall i si bi,
  nth_error s i = Some si -> nth_error b i = Some bi ->
  nth_error (map (fun p => p0 * fst p + snd p) (combine s b)) i
  = Some (p0 * si + bi).
Proof.
  revert b. induction s as [|x s IH]; intros [|y b] [|i] si bi Hs Hb;
    simpl in *; try discriminate.
  - now injection Hs as <-; injection Hb as <-.
  - now apply IH.
Qed.

Lemma existsb_greater (s : ndarray) :
  any (greater s 0) = existsb (fun x => 0 <? x) s.
Proof.
  unfold any, greater. induction s as [|x s IH]; simpl; auto.
  now rewrite IH.
Qed.


Lemma combine_diag (f : float -> float -> float) (b : ndarray) :
  map (fun p => f (fst p) (snd p)) (combine b b) = map (fun y => f y y) b.
Proof. induction b as [|y b IH]; simpl; auto. now rewrite IH. Qed.

(** ** Construction *)

(** C8 (as the code has it): construction performs no validation; for all
    three arrays, of any lengths, it succeeds and returns the model that
    holds exactly these arrays. *)
Theorem init_always_succeeds (s b d : ndarray) :
  __init__ s b d = Ok (Build_PoissonPDF s b d) /\
  (forall self, __init__ s b d = Ok self ->
     signal_yields self = s /\ background_yields self = b /\ data self = d).
Proof.
  split; [reflexivity|].
  unfold __init__. intros self H. injection H as <-. now simpl.
Qed.

(** C8, the claim as written fails: arrays of lengths 1, 2 and 0 are
    accepted, where the claim asks for an [InvalidConstruction] error. *)
Lemma init_accepts_mismatched_lengths :
  __init__ [1] [1; 2] [] = Ok (Build_PoissonPDF [1] [1; 2] []) /\
  __init__ [1] [1; 2] [] <> Raise InvalidConstruction.
Proof. split; [reflexivity | discriminate]. Qed.

(** ** is_alive *)

(** C5: [is_alive] is true exactly when some bin has a strictly positive
    signal yield; it is false exactly when no entry is strictly positive,
    which, for entries that are numbers (no NaN), says that every entry is
    zero or negative. *)
Theorem is_alive_iff_positive_bin (self : PoissonPDF) :
  (is_alive self = true <->
   exists i s, nth_error (signal_yields self) i = Some s /\ (0 <? s) = true) /\
  (is_alive self = false <->
   Forall (fun s => (0 <? s) = false) (signal_yields self)) /\
  (Forall (fun s => is_nan s = false) (signal_yields self) ->
   (is_alive self = false <->
    Forall (fun s => (s <=? 0) = true) (signal_yields self))).
Proof.
  unfold is_alive. rewrite existsb_greater.
  assert (Hfalse : existsb (fun x => 0 <? x) (signal_yields self) = false <->
                   Forall (fun s => (0 <? s) = false) (signal_yields self)).
  { rewrite Forall_forall. split.
    - intros H x Hx. destruct (0 <? x) eqn:E; auto.
      assert (existsb (fun x => 0 <? x) (signal_yields self) = true)
        by (apply existsb_exists; eauto).
      congruence.
    - intros H. destruct (existsb _ _) eqn:E; auto.
      apply existsb_exists in E as (x & Hx & Hpos).
      rewrite (H x Hx) in Hpos. discriminate. }
  split; [|split].
  - rewrite existsb_exists. split.
    + intros (x & Hx & Hpos). apply In_nth_error in Hx as [i Hi]. eauto.
    + intros (i & x & Hi & Hpos). exists x. split; auto.
      eapply nth_error_In; eauto.
  - exact Hfalse.
  - intros Hnan. rewrite Hfalse, !Forall_forall. rewrite Forall_forall in Hnan.
    split; intros H x Hx; apply not_positive_leb_zero; auto.
Qed.

(** ** config *)

(** C3: for a model with one background yield per signal yield and at least
    one bin of strictly positive signal yield, [config] returns POI index 0,
    the suggested initial parameters [[0.0]], and a single bounds pair; the
    minimum POI is [-r], where [r] is one of the ratios
    [background_yields[i] / signal_yields[i]] of the bins with
    [signal_yields[i] > 0] and, when these ratios are numbers (no NaN), the
    least of them; the lower bound is [-r] when negative signal is allowed
    and [0.0] otherwise, the upper bound is [poi_upper_bound]. *)
Theorem config_of_alive_model (self : PoissonPDF)
  (allow_negative_signal : bool) (poi_upper_bound : float) :
  length (signal_yields self) = length (background_yields self) ->
  is_alive self = true ->
  exists r,
    In r (ratios self) /\
    (Forall (fun q => is_nan q = false) (ratios self) ->
     forall q, In q (ratios self) -> (r <=? q) = true) /\
    config self allow_negative_signal poi_upper_bound
    = Ok (Build_ModelConfig
            0
            (- r)
            [0]
            [(if allow_negative_signal then - r else 0, poi_upper_bound)]).
Proof.
  intros Hlen Halive.
  unfold config, divide.
  rewrite !getitem_mask_same_length by (rewrite greater_length; congruence).
  simpl.
  rewrite broadcast2_same_length by now apply compress_length_eq.
  simpl. rewrite compress_divide by exact Hlen.
  fold (ratios self).
  pose proof (alive_ratios _ _ Hlen Halive) as Hne.
  assert (Hne' : ratios self <> []).
  { unfold ratios. intros E. apply map_eq_nil in E. contradiction. }
  destruct (ratios self) as [|x l] eqn:E; [contradiction|].
  exists (fold_left minimum l x). simpl.
  split; [apply fold_minimum_In|]. split; [|reflexivity].
  intros Hnan. inversion Hnan as [|? ? Hx Hl]; subst.
  now apply fold_minimum_least.
Qed.

(** C4 (as the code has it): on a model that is not alive, [config] raises
    and returns no configuration; the exception is one of numpy's,
    [ValueError] or [IndexError], and it is the [ValueError] of the
    reduction over an empty array when there is one background yield per
    signal yield. *)
Theorem config_of_dead_model_raises (self : PoissonPDF)
  (allow_negative_signal : bool) (poi_upper_bound : float) :
  is_alive self = false ->
  (config self allow_negative_signal poi_upper_bound = Raise ValueError \/
   config self allow_negative_signal poi_upper_bound = Raise IndexError) /\
  (length (signal_yields self) = length (background_yields self) ->
   config self allow_negative_signal poi_upper_bound = Raise ValueError).
Proof.
  intros Hdead. unfold is_alive in Hdead.
  assert (Heq : length (signal_yields self)
                = length (background_yields self) ->
                config self allow_negative_signal poi_upper_bound
                = Raise ValueError).
  { intros Hlen. unfold config.
    rewrite !getitem_mask_same_length
      by (rewrite greater_length; congruence).
    simpl. now rewrite !compress_dead by exact Hdead. }
  split; [|exact Heq].
  destruct (Nat.eq_dec (length (signal_yields self))
              (length (background_yields self))) as [Hlen|Hlen];
    [left; now apply Heq|].
  destruct self as [[|x s] b d]; simpl in *.
  - left. reflexivity.
  - right. unfold config. simpl signal_yields. simpl background_yields.
    rewrite getitem_mask_mismatch; [reflexivity | discriminate |].
    rewrite greater_length. simpl. congruence.
Qed.

(** C4, the claim as written fails: on [signal=[0,0], background=[1,1],
    data=[1,1]], which is not alive, [config] raises [ValueError], not
    [DegenerateModel]. *)
Lemma config_dead_model_not_DegenerateModel :
  is_alive dead_model = false /\
  config dead_model true 10 = Raise ValueError /\
  config dead_model true 10 <> Raise DegenerateModel.
Proof. split; [reflexivity | split; [reflexivity | discriminate]]. Qed.

(** ** expected_data *)

(** C2: for a model with one background yield per signal yield and a
    parameter vector with an entry 0, [expected_data] returns the array with
    one entry per bin whose [i]-th entry is
    [pars[0] * signal_yields[i] + background_yields[i]]; it is a function of
    the model and the parameters only. *)
Theorem expected_data_entries (self : PoissonPDF) (p0 : float)
  (rest : list float) :
  length (signal_yields self) = length (background_yields self) ->
  exists out,
    expected_data self (p0 :: rest) = Ok out /\
    length out = length (signal_yields self) /\
    forall i si bi,
      nth_error (signal_yields self) i = Some si ->
      nth_error (background_yields self) i = Some bi ->
      nth_error out i = Some (p0 * si + bi).
Proof.
  intros Hlen. eexists. split; [now apply expected_data_cons|]. split.
  - rewrite length_map, length_combine, <- Hlen. apply Nat.min_id.
  - apply nth_error_rates.
Qed.

(** ** The likelihood and the sampler *)

Section Likelihood.

Variable poisson_logpmf : float -> float -> float.

Lemma logpdf_cons (self : PoissonPDF) (dat : ndarray) (p0 : float)
  (rest : list float) :
  length (signal_yields self) = length (background_yields self) ->
  length dat = length (signal_yields self) ->
  logpdf poisson_logpmf self dat (p0 :: rest)
  = Ok (sum (map (fun i =>
                    poisson_logpmf (nth i dat 0)
                      (p0 * nth i (signal_yields self) 0
                       + nth i (background_yields self) 0))
               (seq 0 (length (signal_yields self))))).
Proof.
  intros Hlen Hdat. unfold logpdf.
  rewrite expected_data_cons by exact Hlen. simpl.
  rewrite broadcast2_same_length.
  - simpl. f_equal. f_equal.
    now apply (bins_by_index poisson_logpmf (fun x y => p0 * x + y)).
  - rewrite length_map, length_combine, <- Hlen, Nat.min_id. exact Hdat.
Qed.



End Likelihood.

Section Closures.

Variable poisson_logpmf : float -> float -> float.
Variable rng : Type.
Variable samples : Type.
Variable poisson_rvs : ndarray -> Z * nat -> rng -> result samples * rng.

(** What the sampler closure hands to scipy: the rates of [expected_data]
    and the size [(sample_size, len(signal_yields))]. *)
Lemma sampler_forwards_rates (self : PoissonPDF) (p0 : float)
  (rest : list float) (sample_size : Z) (st : rng) :
  length (signal_yields self) = length (background_yields self) ->
  get_sampler poisson_rvs self (p0 :: rest) sample_size st
  = poisson_rvs
      (map (fun p => p0 * fst p + snd p)
         (combine (signal_yields self) (background_yields self)))
      (sample_size, length (signal_yields self)) st.
Proof.
  intros Hlen. unfold get_sampler. now rewrite expected_data_cons.
Qed.

(** C10: two parameter vectors with the same entry 0 (or both without one)
    give the same expected data, the same value of every likelihood closure,
    and the same sampler: the same draw from every state of the generator,
    for every sample size. *)
Theorem only_entry_zero_matters (self : PoissonPDF) (p q : list float) :
  nth_error p 0 = nth_error q 0 ->
  expected_data self p = expected_data self q /\
  (forall expected d,
     get_logpdf_func poisson_logpmf self expected d p
     = get_logpdf_func poisson_logpmf self expected d q) /\
  (forall sample_size st,
     get_sampler poisson_rvs self p sample_size st
     = get_sampler poisson_rvs self q sample_size st).
Proof.
  intros H. pose proof (expected_data_head self p q H) as E.
  split; [exact E|]. split.
  - intros expected d. unfold get_logpdf_func, logpdf. now rewrite E.
  - intros sample_size st. unfold get_sampler. now rewrite E.
Qed.

End Closures.

(** ** The likelihood outside the domain of the rates *)

Section SpecialValues.

(** The closed form of the log-pmf where the rate is positive. *)
Variable regular : float -> float -> float.

Lemma logpmf_negative_rate (k mu : float) :
  (mu <? 0) = true -> scipy_poisson_logpmf regular k mu = nan.
Proof.
  intros Hmu. unfold scipy_poisson_logpmf.
  rewrite (negative_flags mu Hmu). simpl. now rewrite orb_true_r.
Qed.

Lemma logpmf_zero_rate (k mu : float) :
  is_zero mu = true ->
  ((0 <? k) = true -> scipy_poisson_logpmf regular k mu = neg_infinity) /\
  (is_zero k = true -> scipy_poisson_logpmf regular k mu = 0).
Proof.
  intros Hmu. unfold scipy_poisson_logpmf.
  destruct (zero_flags mu Hmu) as (-> & _ & _). rewrite Hmu. simpl.
  rewrite orb_false_r. split.
  - intros Hk. now destruct (positive_flags k Hk) as (-> & -> & ->).
  - intros Hk. destruct (zero_flags k Hk) as (_ & -> & ->). now rewrite Hk.
Qed.

(** C7 (as the code has it): on a model with one entry per bin in each
    array and a parameter vector with an entry 0, the closure of
    [get_logpdf_func] raises for no value of the parameter, in or out of the
    domain: it returns [np.sum] of the bins' contributions.  A bin whose
    rate is negative contributes a NaN, and the sum is then a NaN; a bin
    whose rate is zero while its count is positive contributes [-inf], and
    the sum is then [-inf] when every contribution is at most [0.0]; a bin
    whose rate and count are both zero contributes [0.0]. *)
Theorem logpdf_out_of_domain (self : PoissonPDF)
  (expected : ExpectationType) (d : option ndarray) (p0 : float)
  (rest : list float) :
  length (signal_yields self) = length (background_yields self) ->
  length (selected_data self expected d) = length (signal_yields self) ->
  exists contributions,
    get_logpdf_func (scipy_poisson_logpmf regular) self expected d
      (p0 :: rest) = Ok (sum contributions) /\
    length contributions = length (signal_yields self) /\
    forall i k si bi,
      nth_error (selected_data self expected d) i = Some k ->
      nth_error (signal_yields self) i = Some si ->
      nth_error (background_yields self) i = Some bi ->
      nth_error contributions i
      = Some (scipy_poisson_logpmf regular k (p0 * si + bi)) /\
      ((p0 * si + bi <? 0) = true ->
       scipy_poisson_logpmf regular k (p0 * si + bi) = nan /\
       is_nan (sum contributions) = true) /\
      (is_zero (p0 * si + bi) = true -> (0 <? k) = true ->
       scipy_poisson_logpmf regular k (p0 * si + bi) = neg_infinity /\
       (Forall (fun c => (c <=? 0) = true) contributions ->
        sum contributions = neg_infinity)) /\
      (is_zero (p0 * si + bi) = true -> is_zero k = true ->
       scipy_poisson_logpmf regular k (p0 * si + bi) = 0).
Proof.
  intros Hlen Hdat.
  set (dat := selected_data self expected d) in *.
  set (f := scipy_poisson_logpmf regular).
  exists (map (fun i => f (nth i dat 0)
                          (p0 * nth i (signal_yields self) 0
                           + nth i (background_yields self) 0))
            (seq 0 (length (signal_yields self)))).
  split; [unfold get_logpdf_func; now apply logpdf_cons|].
  split; [now rewrite length_map, length_seq|].
  intros i k si bi Hk Hsi Hbi.
  assert (Hi : (i < length (signal_yields self))%nat)
    by (apply nth_error_Some; congruence).
  assert (Hnth : nth_error
                   (map (fun i => f (nth i dat 0)
                                    (p0 * nth i (signal_yields self) 0
                                     + nth i (background_yields self) 0))
                      (seq 0 (length (signal_yields self)))) i
                 = Some (f k (p0 * si + bi))).
  { rewrite nth_error_map, nth_error_seq.
    apply Nat.ltb_lt in Hi. rewrite Hi. simpl.
    now rewrite (nth_error_nth _ _ 0 Hk), (nth_error_nth _ _ 0 Hsi),
      (nth_error_nth _ _ 0 Hbi). }
  pose proof (nth_error_In _ _ Hnth) as Hin.
  split; [exact Hnth|]. split; [|split].
  - intros Hneg. pose proof (logpmf_negative_rate k _ Hneg) as E.
    split; [exact E|]. apply sum_nan, Exists_exists.
    exists (f k (p0 * si + bi)). split; [exact Hin|].
    unfold f. now rewrite E.
  - intros Hz Hpos.
    destruct (logpmf_zero_rate k _ Hz) as [E _]. specialize (E Hpos).
    split; [exact E|]. intros Hall. apply sum_neg_infinity; [exact Hall|].
    apply Exists_exists. exists (f k (p0 * si + bi)). now split.
  - intros Hz Hk0. now apply (logpmf_zero_rate k _ Hz).
Qed.

End SpecialValues.

(** C7, the claim as written fails: on [signal=[10,5]], [background=[2,3]],
    [data=[12,8]] at the parameter [-1.0], the rate of the first bin is
    [-8.0] and its count [12.0]; its contribution is a NaN, not [-inf], and
    so is the value of the closure. *)
Lemma logpdf_negative_rate_is_nan :
  (-1 * 10 + 2 <=? 0) = true /\ (0 <? 12) = true /\
  scipy_poisson_logpmf kernel_example 12 (-1 * 10 + 2) = nan /\
  get_logpdf_func (scipy_poisson_logpmf kernel_example) example_model
    observed None [-1] = Ok nan /\
  PrimFloat.Leibniz.eqb nan neg_infinity = false.
Proof. repeat split; reflexivity. Qed.


(** ** Further facts on [config] *)

Lemma config_by_ratios (self : PoissonPDF) (allow_negative_signal : bool)
  (poi_upper_bound : float) :
  length (signal_yields self) = length (background_yields self) ->
  config self allow_negative_signal poi_upper_bound
  = (m <- min (ratios self) ;;
     Ok (Build_ModelConfig
           0
           (- m)
           [0]
           [(if allow_negative_signal then - m else 0, poi_upper_bound)])).
Proof.
  intros Hlen. unfold config, divide.
  rewrite !getitem_mask_same_length by (rewrite greater_length; congruence).
  simpl.
  rewrite broadcast2_same_length by now apply compress_length_eq.
  simpl. now rewrite compress_divide by exact Hlen.
Qed.

Lemma config_length_mismatch (self : PoissonPDF)
  (allow_negative_signal : bool) (poi_upper_bound : float) :
  signal_yields self <> [] ->
  length (signal_yields self) <> length (background_yields self) ->
  config self allow_negative_signal poi_upper_bound = Raise IndexError.
Proof.
  intros Hs Hlen. unfold config.
  rewrite getitem_mask_mismatch; [reflexivity | |].
  - unfold greater. intros E. apply map_eq_nil in E. contradiction.
  - rewrite greater_length. congruence.
Qed.

Lemma list_eq_dec_nil {A : Type} (l : list A) : l = [] \/ l <> [].
Proof. destruct l; [now left | now right]. Qed.

Lemma config_no_signal_bins (self : PoissonPDF)
  (allow_negative_signal : bool) (poi_upper_bound : float) :
  signal_yields self = [] ->
  config self allow_negative_signal poi_upper_bound = Raise ValueError.
Proof. intros Hs. unfold config. now rewrite Hs. Qed.

Lemma ratios_nil_iff (self : PoissonPDF) :
  length (signal_yields self) = length (background_yields self) ->
  ratios self = [] <-> is_alive self = false.
Proof.
  unfold ratios, is_alive. destruct self as [s b d]. simpl. clear d.
  revert b. induction s as [|x s IH]; intros [|y b] H; simpl in *;
    try discriminate; [tauto|].
  injection H as H. destruct (0 <? x); simpl; [split; discriminate|].
  now apply IH.
Qed.

Lemma ratios_In (self : PoissonPDF) (q : float) :
  In q (ratios self) ->
  exists s b,
    In s (signal_yields self) /\ In b (background_yields self) /\
    (0 <? s) = true /\ q = b / s.
Proof.
  unfold ratios. intros H.
  apply in_map_iff in H as ([s b] & <- & H).
  apply filter_In in H as [H Hpos]. simpl in *.
  exists s, b. repeat split; auto.
  - eapply in_combine_l; eauto.
  - eapply in_combine_r; eauto.
Qed.

Lemma ratios_of_bin (self : PoissonPDF) (i : nat) (s b : float) :
  nth_error (signal_yields self) i = Some s ->
  nth_error (background_yields self) i = Some b ->
  (0 <? s) = true ->
  In (b / s) (ratios self).
Proof.
  unfold ratios. destruct self as [ss bs d]. simpl. clear d.
  revert bs i. induction ss as [|x ss IH]; intros [|y bs] [|i] Hs Hb Hpos;
    simpl in *; try discriminate.
  - injection Hs as ->. injection Hb as ->. rewrite Hpos. now left.
  - destruct (0 <? x); simpl; [right|]; eapply IH; eauto.
Qed.

Lemma ratios_signal_bins (self : PoissonPDF) :
  length (signal_yields self) = length (background_yields self) ->
  ratios (signal_bins self) = ratios self.
Proof.
  unfold ratios, signal_bins. destruct self as [s b d]. simpl. clear d.
  revert b. induction s as [|x s IH]; intros [|y b] H; simpl in *;
    try discriminate; auto.
  injection H as H. destruct (0 <? x) eqn:E; simpl; [rewrite E; simpl|];
    now rewrite IH.
Qed.

(** X1: [config] returns a configuration exactly when there is one background
    yield per signal yield and the model is alive; it raises [IndexError]
    exactly when the signal array is not empty and the two lengths differ
    (alive or not); it raises [ValueError] exactly when the signal array is
    empty, or the two lengths agree and the model is not alive. *)
Theorem config_outcomes (self : PoissonPDF) (allow_negative_signal : bool)
  (poi_upper_bound : float) :
  ((exists cfg, config self allow_negative_signal poi_upper_bound = Ok cfg) <->
   length (signal_yields self) = length (background_yields self) /\
   is_alive self = true) /\
  (config self allow_negative_signal poi_upper_bound = Raise IndexError <->
   signal_yields self <> [] /\
   length (signal_yields self) <> length (background_yields self)) /\
  (config self allow_negative_signal poi_upper_bound = Raise ValueError <->
   signal_yields self = [] \/
   (length (signal_yields self) = length (background_yields self) /\
    is_alive self = false)).
Proof.
  destruct (Nat.eq_dec (length (signal_yields self))
              (length (background_yields self))) as [Hlen|Hlen].
  - rewrite (config_by_ratios self _ _ Hlen).
    pose proof (ratios_nil_iff self Hlen) as Hnil.
    destruct (ratios self) as [|x l]; simpl.
    + assert (Hdead : is_alive self = false) by now apply Hnil.
      rewrite Hdead. split; [|split].
      * split; [intros [cfg Hcfg]; discriminate | intros [_ Habs]; discriminate].
      * split; [discriminate | tauto].
      * tauto.
    + assert (Halive : is_alive self = true).
      { destruct (is_alive self); auto.
        assert (Habs : x :: l = []) by now apply Hnil.
        discriminate Habs. }
      assert (Hs : signal_yields self <> []).
      { intros E. unfold is_alive in Halive. rewrite E in Halive.
        discriminate. }
      rewrite Halive. split; [|split].
      * split; eauto.
      * split; [discriminate | tauto].
      * split; [discriminate | intros [Habs|[_ Habs]];
                                 [contradiction | discriminate]].
  - destruct (list_eq_dec_nil (signal_yields self)) as [Es|Es].
    + rewrite (config_no_signal_bins self _ _ Es). split; [|split].
      * split; [intros [cfg Hcfg]; discriminate | intros [Habs _]].
        contradiction.
      * split; [discriminate | now intros [Habs _]].
      * tauto.
    + rewrite (config_length_mismatch self _ _ Es Hlen).
      split; [|split].
      * split; [intros [cfg Hcfg]; discriminate | tauto].
      * tauto.
      * split; [discriminate | tauto].
Qed.

(** X2: for an alive model with one background yield per signal yield, whose
    background yields are non-negative and finite, and a non-negative upper
    bound, [config] returns a configuration whose minimum POI is at most
    [0.0] and whose suggested initial parameters lie, entry by entry, within
    the suggested bounds. *)
Theorem config_bounds_contain_init (self : PoissonPDF)
  (allow_negative_signal : bool) (poi_upper_bound : float) :
  length (signal_yields self) = length (background_yields self) ->
  is_alive self = true ->
  Forall (fun b => (0 <=? b) = true /\ (b <? infinity) = true)
    (background_yields self) ->
  (0 <=? poi_upper_bound) = true ->
  exists cfg,
    config self allow_negative_signal poi_upper_bound = Ok cfg /\
    (minimum_poi cfg <=? 0) = true /\
    Forall2 (fun x bound => (fst bound <=? x) = true /\ (x <=? snd bound) = true)
      (suggested_init cfg) (suggested_bounds cfg).
Proof.
  intros Hlen Halive Hbkg Hup.
  rewrite (config_by_ratios self _ _ Hlen).
  pose proof (ratios_nil_iff self Hlen) as Hnil.
  assert (Hpos : forall q, In q (ratios self) -> (0 <=? q) = true).
  { intros q Hq. apply ratios_In in Hq as (s & b & _ & Hb & Hs & ->).
    rewrite Forall_forall in Hbkg. destruct (Hbkg b Hb) as [H0 Hinf].
    now apply div_nonneg. }
  destruct (ratios self) as [|x l] eqn:E.
  - assert (is_alive self = false) by now apply Hnil. congruence.
  - simpl. eexists. split; [reflexivity|]. simpl.
    assert (Hr : (- fold_left minimum l x <=? 0) = true)
      by (apply opp_nonneg, Hpos, fold_minimum_In).
    split; [exact Hr|].
    constructor; [|constructor]. simpl. split; [|exact Hup].
    destruct allow_negative_signal; [exact Hr | reflexivity].
Qed.

(** X3: the bins without strictly positive signal yield play no part in
    [config]: on a model with one background yield per signal yield, it
    returns on the model restricted to its signal-bearing bins what it
    returns on the model itself. *)
Theorem config_ignores_signal_free_bins (self : PoissonPDF)
  (allow_negative_signal : bool) (poi_upper_bound : float) :
  length (signal_yields self) = length (background_yields self) ->
  config (signal_bins self) allow_negative_signal poi_upper_bound
  = config self allow_negative_signal poi_upper_bound.
Proof.
  intros Hlen.
  rewrite (config_by_ratios self _ _ Hlen).
  rewrite config_by_ratios
    by (unfold signal_bins; simpl; symmetry; now apply compress_length_eq).
  now rewrite ratios_signal_bins.
Qed.

(** X4: a NaN among the yields is not an error for [config]: when a bin of
    strictly positive signal yield has a NaN background yield, [config]
    returns a configuration whose minimum POI is a NaN. *)
Theorem config_propagates_nan (self : PoissonPDF)
  (allow_negative_signal : bool) (poi_upper_bound : float)
  (i : nat) (s b : float) :
  length (signal_yields self) = length (background_yields self) ->
  nth_error (signal_yields self) i = Some s ->
  nth_error (background_yields self) i = Some b ->
  (0 <? s) = true ->
  is_nan b = true ->
  exists cfg,
    config self allow_negative_signal poi_upper_bound = Ok cfg /\
    is_nan (minimum_poi cfg) = true.
Proof.
  intros Hlen Hs Hb Hpos Hnan.
  rewrite (config_by_ratios self _ _ Hlen).
  pose proof (ratios_of_bin self i s b Hs Hb Hpos) as Hin.
  assert (Hex : Exists (fun q => is_nan q = true) (ratios self)).
  { apply Exists_exists. exists (b / s). split; auto using is_nan_div_l. }
  destruct (ratios self) as [|x l]; [inversion Hex|].
  simpl. eexists. split; [reflexivity|]. simpl.
  apply is_nan_opp, fold_minimum_nan.
  inversion Hex; subst; auto.
Qed.

(** ** Further facts on broadcasting and [expected_data] *)

Lemma broadcast2_raises (f : float -> float -> float) (xs ys : ndarray) :
  length xs <> length ys -> length xs <> 1%nat -> length ys <> 1%nat ->
  broadcast2 f xs ys = Raise ValueError.
Proof.
  intros Hne Hx Hy. unfold broadcast2.
  destruct (Nat.eqb _ _) eqn:E; [apply Nat.eqb_eq in E; contradiction|].
  destruct xs as [|x [|x' xs]], ys as [|y [|y' ys]]; simpl in *;
    try reflexivity; contradiction.
Qed.

Lemma broadcast2_returns (f : float -> float -> float) (xs ys : ndarray) :
  length xs = length ys \/ length xs = 1%nat \/ length ys = 1%nat ->
  exists out,
    broadcast2 f xs ys = Ok out /\
    length out = broadcast_length (length xs) (length ys).
Proof.
  intros H. unfold broadcast2, broadcast_length.
  destruct (Nat.eqb (length xs) (length ys)) eqn:E.
  - apply Nat.eqb_eq in E. eexists. split; [reflexivity|].
    rewrite length_map, length_combine, <- E, Nat.min_id.
    destruct (Nat.eqb_spec (length xs) 1); congruence.
  - apply Nat.eqb_neq in E.
    destruct xs as [|x [|x' xs]], ys as [|y [|y' ys]]; simpl in *;
      try (eexists; split; [reflexivity|]; simpl;
           rewrite ?length_map; reflexivity);
      destruct H as [H|[H|H]]; try discriminate; contradiction.
Qed.

Lemma rates_background (p0 : float) (s : ndarray) : forall b : ndarray,
  length s = length b ->
  (forall x y, In x s -> In y b -> p0 * x + y = y) ->
  map (fun p => p0 * fst p + snd p) (combine s b) = b.
Proof.
  induction s as [|x s IH]; intros [|y b] Hlen H; simpl in *;
    try discriminate; auto.
  rewrite H by auto. f_equal. apply IH; auto.
Qed.

Lemma is_zero_is_finite (x : float) : is_zero x = true -> is_finite x = true.
Proof.
  intros Hx. apply is_zero_Prim2SF in Hx.
  unfold is_finite, is_nan, is_infinity. rewrite !eqb_spec, abs_spec.
  change (Prim2SF infinity) with (S754_infinity false).
  now destruct (Prim2SF x).
Qed.

Lemma is_zero_not_positive (x : float) : is_zero x = true -> (0 <? x) = false.
Proof.
  intros Hx. apply is_zero_Prim2SF in Hx. rewrite ltb_spec.
  change (Prim2SF 0) with (S754_zero false).
  now destruct (Prim2SF x).
Qed.

(** Without signal (a zero parameter, or zero signal yields) the rates are
    the background yields, bit for bit. *)
Lemma expected_data_background (self : PoissonPDF) (p0 : float)
  (rest : list float) :
  length (signal_yields self) = length (background_yields self) ->
  (is_zero p0 = true /\
   Forall (fun s => is_finite s = true) (signal_yields self)) \/
  (is_finite p0 = true /\
   Forall (fun s => is_zero s = true) (signal_yields self)) ->
  Forall (fun b => is_neg_zero b = false) (background_yields self) ->
  expected_data self (p0 :: rest) = Ok (background_yields self).
Proof.
  intros Hlen Hsig Hbkg. rewrite expected_data_cons by exact Hlen.
  apply (f_equal Ok). apply rates_background; [exact Hlen|].
  intros x y Hx Hy. rewrite Forall_forall in Hbkg.
  destruct Hsig as [[Hp Hs]|[Hp Hs]]; rewrite Forall_forall in Hs;
    apply zero_product_add; auto using is_zero_is_finite.
Qed.

(** X5: [expected_data] raises [IndexError] exactly on an empty parameter
    vector, whatever the model; it raises [ValueError] exactly when the
    parameter vector is not empty and the signal and background arrays have
    different lengths, neither of them 1; and when it returns, the array has
    the broadcast length: the common length, or the other array's when one
    has length 1. *)
Theorem expected_data_outcomes (self : PoissonPDF) (pars : list float) :
  (expected_data self pars = Raise IndexError <-> pars = []) /\
  (expected_data self pars = Raise ValueError <->
   pars <> [] /\
   length (signal_yields self) <> length (background_yields self) /\
   length (signal_yields self) <> 1%nat /\
   length (background_yields self) <> 1%nat) /\
  (forall out,
     expected_data self pars = Ok out ->
     length out = broadcast_length (length (signal_yields self))
                    (length (background_yields self))).
Proof.
  destruct pars as [|p0 rest].
  - simpl. split; [tauto|]. split; [|discriminate].
    split; [discriminate | now intros [H _]].
  - unfold expected_data, add. simpl.
    set (xs := scalar_mul p0 (signal_yields self)).
    assert (Hxs : length xs = length (signal_yields self))
      by apply length_map.
    rewrite <- Hxs.
    assert (Hcases :
              (length xs <> length (background_yields self) /\
               length xs <> 1%nat /\
               length (background_yields self) <> 1%nat) \/
              (length xs = length (background_yields self) \/
               length xs = 1%nat \/
               length (background_yields self) = 1%nat)) by lia.
    destruct Hcases as [(He & H1 & H2)|Hok].
    + rewrite (broadcast2_raises _ _ _ He H1 H2).
      split; [|split].
      * split; [discriminate | discriminate].
      * split; [intros _; repeat split; auto; discriminate | reflexivity].
      * discriminate.
    + destruct (broadcast2_returns PrimFloat.add xs
                  (background_yields self) Hok) as (out & -> & Hout).
      split; [|split].
      * split; discriminate.
      * split; [discriminate | tauto].
      * intros o Ho. now injection Ho as <-.
Qed.

(** ** Further facts on the closures *)

Section LikelihoodOutcomes.

Variable poisson_logpmf : float -> float -> float.

(** X6: at a zero parameter of interest ([0.0] or [-0.0]), on a model with
    one background yield per signal yield, finite signal yields and no
    background yield equal to [-0.0], the expected data are the background
    yields themselves; and with fewer than eight bins the apriori closure is
    [0.0] plus, added from left to right, the log-pmf of each
    [background_yields[i]] at rate [background_yields[i]]. *)
Theorem background_only_at_zero (self : PoissonPDF) (p0 : float)
  (rest : list float) :
  length (signal_yields self) = length (background_yields self) ->
  is_zero p0 = true ->
  Forall (fun s => is_finite s = true) (signal_yields self) ->
  Forall (fun b => is_neg_zero b = false) (background_yields self) ->
  expected_data self (p0 :: rest) = Ok (background_yields self) /\
  ((length (background_yields self) < 8)%nat ->
   get_logpdf_func poisson_logpmf self apriori None (p0 :: rest)
   = Ok (0 + fold_left PrimFloat.add
               (map (fun b => poisson_logpmf b b) (background_yields self))
               neg_zero)).
Proof.
  intros Hlen Hp Hs Hb.
  assert (E : expected_data self (p0 :: rest) = Ok (background_yields self))
    by (apply expected_data_background; auto).
  split; [exact E|]. intros Hsmall.
  unfold get_logpdf_func, logpdf. rewrite E. simpl.
  rewrite broadcast2_same_length by reflexivity. simpl.
  rewrite combine_diag, sum_small; [reflexivity|].
  now rewrite length_map.
Qed.

(** X7: a model whose signal yields are all zero, with one background yield
    per signal yield and no background yield equal to [-0.0], is not alive,
    its expected data are the background yields at every finite parameter of
    interest, and each of its likelihood closures takes the same value at any
    two finite parameters of interest. *)
Theorem zero_signal_is_flat (self : PoissonPDF) (p0 q0 : float)
  (rest rest' : list float) :
  length (signal_yields self) = length (background_yields self) ->
  Forall (fun s => is_zero s = true) (signal_yields self) ->
  Forall (fun b => is_neg_zero b = false) (background_yields self) ->
  is_finite p0 = true ->
  is_finite q0 = true ->
  is_alive self = false /\
  expected_data self (p0 :: rest) = Ok (background_yields self) /\
  (forall expected d,
     get_logpdf_func poisson_logpmf self expected d (p0 :: rest)
     = get_logpdf_func poisson_logpmf self expected d (q0 :: rest')).
Proof.
  intros Hlen Hs Hb Hp Hq.
  assert (Ep : expected_data self (p0 :: rest) = Ok (background_yields self))
    by (apply expected_data_background; auto).
  assert (Eq : expected_data self (q0 :: rest') = Ok (background_yields self))
    by (apply expected_data_background; auto).
  split; [|split; [exact Ep|]].
  - unfold is_alive. rewrite existsb_greater.
    destruct (existsb _ _) eqn:E; auto.
    apply existsb_exists in E as (x & Hx & Hpos).
    rewrite Forall_forall in Hs.
    rewrite (is_zero_not_positive x (Hs x Hx)) in Hpos. discriminate.
  - intros expected d. unfold get_logpdf_func, logpdf. now rewrite Ep, Eq.
Qed.

(** X8: on a model with one background yield per signal yield, every
    likelihood closure raises [IndexError] on an empty parameter vector; on a
    parameter vector with an entry 0 it returns a value exactly when the
    array it captured has one entry per bin, or a single entry, or the model
    a single bin, and raises [ValueError] otherwise. *)
Theorem logpdf_outcomes (self : PoissonPDF) (expected : ExpectationType)
  (d : option ndarray) (p0 : float) (rest : list float) :
  length (signal_yields self) = length (background_yields self) ->
  get_logpdf_func poisson_logpmf self expected d [] = Raise IndexError /\
  ((exists v,
      get_logpdf_func poisson_logpmf self expected d (p0 :: rest) = Ok v) <->
   length (selected_data self expected d) = length (signal_yields self) \/
   length (selected_data self expected d) = 1%nat \/
   length (signal_yields self) = 1%nat) /\
  (get_logpdf_func poisson_logpmf self expected d (p0 :: rest)
   = Raise ValueError <->
   length (selected_data self expected d) <> length (signal_yields self) /\
   length (selected_data self expected d) <> 1%nat /\
   length (signal_yields self) <> 1%nat).
Proof.
  intros Hlen. split; [reflexivity|].
  unfold get_logpdf_func, logpdf.
  rewrite expected_data_cons by exact Hlen. simpl.
  set (dat := selected_data self expected d).
  set (mu := map _ _).
  assert (Hmu : length mu = length (signal_yields self))
    by (unfold mu; rewrite length_map, length_combine, <- Hlen;
        apply Nat.min_id).
  rewrite <- Hmu.
  assert (Hcases :
            (length dat <> length mu /\ length dat <> 1%nat /\
             length mu <> 1%nat) \/
            (length dat = length mu \/ length dat = 1%nat \/
             length mu = 1%nat)) by lia.
  destruct Hcases as [(He & H1 & H2)|Hok].
  - rewrite (broadcast2_raises _ _ _ He H1 H2). simpl. split.
    + split; [intros [v Hv]; discriminate | tauto].
    + tauto.
  - destruct (broadcast2_returns poisson_logpmf dat mu Hok)
      as (out & -> & _).
    simpl. split.
    + split; eauto.
    + split; [discriminate | tauto].
Qed.

End LikelihoodOutcomes.

Section SamplerOutcomes.

Variable rng : Type.
Variable samples : Type.
Variable poisson_rvs : ndarray -> Z * nat -> rng -> result samples * rng.

(** X9: on a model with one background yield per signal yield, the sampler
    closure built on an empty parameter vector raises [IndexError] when it is
    called and leaves the generator as it was; built on a parameter vector
    with an entry 0 it is one call of [poisson.rvs], with the rates
    [pars[0] * signal_yields[i] + background_yields[i]] of the bins, in bin
    order, and the size [(sample_size, len(signal_yields))]. *)
Theorem sampler_call (self : PoissonPDF) (p0 : float) (rest : list float)
  (sample_size : Z) (st : rng) :
  length (signal_yields self) = length (background_yields self) ->
  get_sampler poisson_rvs self [] sample_size st = (Raise IndexError, st) /\
  exists mu,
    get_sampler poisson_rvs self (p0 :: rest) sample_size st
    = poisson_rvs mu (sample_size, length (signal_yields self)) st /\
    length mu = length (signal_yields self) /\
    forall i si bi,
      nth_error (signal_yields self) i = Some si ->
      nth_error (background_yields self) i = Some bi ->
      nth_error mu i = Some (p0 * si + bi).
Proof.
  intros Hlen. split; [reflexivity|].
  eexists. split; [|split].
  - unfold get_sampler. rewrite expected_data_cons by exact Hlen. reflexivity.
  - rewrite length_map, length_combine, <- Hlen. apply Nat.min_id.
  - apply nth_error_rates.
Qed.

End SamplerOutcomes.

(** ** Instances on the running example *)

Lemma init_example :
  __init__ [10; 5] [2; 3] [12; 8] = Ok example_model.
Proof. reflexivity. Qed.

Lemma expected_data_example :
  expected_data example_model [1] = Ok [12; 8].
Proof. reflexivity. Qed.

Lemma config_example :
  config example_model true 10
  = Ok (Build_ModelConfig 0 (- (2 / 10)) [0] [(- (2 / 10), 10)]) /\
  config example_model false 10
  = Ok (Build_ModelConfig 0 (- (2 / 10)) [0] [(0, 10)]).
Proof. split; reflexivity. Qed.



Lemma only_entry_zero_matters_example :
  expected_data example_model [1; 7] = expected_data example_model [1; 3; 4] /\
  (forall expected d,
     get_logpdf_func kernel_example example_model expected d [1; 7]
     = get_logpdf_func kernel_example example_model expected d [1; 3; 4]) /\
  (forall sample_size st,
     get_sampler rvs_example example_model [1; 7] sample_size st
     = get_sampler rvs_example example_model [1; 3; 4] sample_size st).
Proof.
  apply (only_entry_zero_matters kernel_example nat (list ndarray) rvs_example
           example_model [1; 7] [1; 3; 4]).
  reflexivity.
Defined.

Lemma logpdf_out_of_domain_example :
  exists contributions,
    get_logpdf_func (scipy_poisson_logpmf kernel_example) example_model
      observed None [-1] = Ok (sum contributions) /\
    length contributions = length (signal_yields example_model) /\
    forall i k si bi,
      nth_error (selected_data example_model observed None) i = Some k ->
      nth_error (signal_yields example_model) i = Some si ->
      nth_error (background_yields example_model) i = Some bi ->
      nth_error contributions i
      = Some (scipy_poisson_logpmf kernel_example k (-1 * si + bi)) /\
      ((-1 * si + bi <? 0) = true ->
       scipy_poisson_logpmf kernel_example k (-1 * si + bi) = nan /\
       is_nan (sum contributions) = true) /\
      (is_zero (-1 * si + bi) = true -> (0 <? k) = true ->
       scipy_poisson_logpmf kernel_example k (-1 * si + bi) = neg_infinity /\
       (Forall (fun c => (c <=? 0) = true) contributions ->
        sum contributions = neg_infinity)) /\
      (is_zero (-1 * si + bi) = true -> is_zero k = true ->
       scipy_poisson_logpmf kernel_example k (-1 * si + bi) = 0).
Proof.
  apply (logpdf_out_of_domain kernel_example example_model observed None
           (-1) []); reflexivity.
Defined.

Lemma config_of_alive_model_example :
  exists r,
    In r (ratios example_model) /\
    (Forall (fun q => is_nan q = false) (ratios example_model) ->
     forall q, In q (ratios example_model) -> (r <=? q) = true) /\
    config example_model true 10
    = Ok (Build_ModelConfig 0 (- r) [0] [(- r, 10)]).
Proof.
  apply (config_of_alive_model example_model true 10); reflexivity.
Defined.

Lemma config_of_dead_model_raises_example :
  (config dead_model true 10 = Raise ValueError \/
   config dead_model true 10 = Raise IndexError) /\
  (length (signal_yields dead_model) = length (background_yields dead_model) ->
   config dead_model true 10 = Raise ValueError).
Proof.
  apply (config_of_dead_model_raises dead_model true 10). reflexivity.
Defined.

Lemma expected_data_entries_example :
  exists out,
    expected_data example_model [1] = Ok out /\
    length out = 2%nat /\
    forall i si bi,
      nth_error (signal_yields example_model) i = Some si ->
      nth_error (background_yields example_model) i = Some bi ->
      nth_error out i = Some (1 * si + bi).
Proof.
  apply (expected_data_entries example_model 1 []). reflexivity.
Defined.

Lemma is_alive_iff_positive_bin_example :
  is_alive dead_model = false <->
  Forall (fun s => (s <=? 0) = true) (signal_yields dead_model).
Proof.
  apply (proj2 (proj2 (is_alive_iff_positive_bin dead_model))).
  repeat constructor.
Defined.

(** ** Instances of the further properties *)

Lemma config_bounds_contain_init_example :
  exists cfg,
    config example_model true 10 = Ok cfg /\
    (minimum_poi cfg <=? 0) = true /\
    Forall2 (fun x bound => (fst bound <=? x) = true /\ (x <=? snd bound) = true)
      (suggested_init cfg) (suggested_bounds cfg).
Proof.
  apply (config_bounds_contain_init example_model true 10);
    try reflexivity.
  repeat constructor.
Defined.

Lemma config_ignores_signal_free_bins_example :
  config (signal_bins mixed_model) true 10 = config mixed_model true 10.
Proof.
  apply (config_ignores_signal_free_bins mixed_model true 10). reflexivity.
Defined.

Lemma config_propagates_nan_example :
  exists cfg,
    config nan_model true 10 = Ok cfg /\ is_nan (minimum_poi cfg) = true.
Proof.
  apply (config_propagates_nan nan_model true 10 0 1 nan); reflexivity.
Defined.

Lemma background_only_at_zero_example :
  expected_data example_model [0] = Ok (background_yields example_model) /\
  ((length (background_yields example_model) < 8)%nat ->
   get_logpdf_func kernel_example example_model apriori None [0]
   = Ok (0 + fold_left PrimFloat.add
               (map (fun b => kernel_example b b)
                  (background_yields example_model))
               neg_zero)).
Proof.
  apply (background_only_at_zero kernel_example example_model 0 []);
    try reflexivity; repeat constructor.
Defined.

Lemma zero_signal_is_flat_example :
  is_alive dead_model = false /\
  expected_data dead_model [1] = Ok (background_yields dead_model) /\
  (forall expected d,
     get_logpdf_func kernel_example dead_model expected d [1]
     = get_logpdf_func kernel_example dead_model expected d [2; 5]).
Proof.
  apply (zero_signal_is_flat kernel_example dead_model 1 2 [] [5]);
    try reflexivity; repeat constructor.
Defined.

Lemma logpdf_outcomes_example :
  get_logpdf_func kernel_example example_model observed (Some [1; 2; 3]) []
  = Raise IndexError /\
  ((exists v,
      get_logpdf_func kernel_example example_model observed (Some [1; 2; 3])
        [1] = Ok v) <->
   length (selected_data example_model observed (Some [1; 2; 3]))
   = length (signal_yields example_model) \/
   length (selected_data example_model observed (Some [1; 2; 3])) = 1%nat \/
   length (signal_yields example_model) = 1%nat) /\
  (get_logpdf_func kernel_example example_model observed (Some [1; 2; 3]) [1]
   = Raise ValueError <->
   length (selected_data example_model observed (Some [1; 2; 3]))
   <> length (signal_yields example_model) /\
   length (selected_data example_model observed (Some [1; 2; 3])) <> 1%nat /\
   length (signal_yields example_model) <> 1%nat).
Proof.
  apply (logpdf_outcomes kernel_example example_model observed
           (Some [1; 2; 3]) 1 []).
  reflexivity.
Defined.

Lemma sampler_call_example :
  get_sampler rvs_example example_model [] 3%Z 0%nat
  = (Raise IndexError, 0%nat) /\
  exists mu,
    get_sampler rvs_example example_model [1] 3%Z 0%nat
    = rvs_example mu (3%Z, length (signal_yields example_model)) 0%nat /\
    length mu = length (signal_yields example_model) /\
    forall i si bi,
      nth_error (signal_yields example_model) i = Some si ->
      nth_error (background_yields example_model) i = Some bi ->
      nth_error mu i = Some (1 * si + bi).
Proof.
  apply (sampler_call nat (list ndarray) rvs_example example_model 1 [] 3%Z
           0%nat).
  reflexivity.
Defined.
